(** * QPyTorch: a shallow embedding of two tutorial notebooks

    The sources this development is written from are the tutorial notebooks
    of the repository.  Two of them contain program text whose behaviour can
    be stated and proved here:

    - "Deep Q-Exponential Processes": the hidden layer
      [ToyDeepQEPHiddenLayer] and its [__call__], which implements
      concatenation based skip connections;
    - "Kernels with Additive or Product Structure": the two implementations
      of a spectral mixture kernel, one composing kernel objects with [+] and
      [*], the other composing their outputs.

    Tensor entries are kept abstract (a type [scalar] with whatever addition
    and multiplication the tensors use), so that nothing below depends on
    laws of arithmetic that floating-point numbers do not satisfy. *)

From Stdlib Require Import List Arith Lia ZArith.
From Stdlib Require Import Floats Uint63.
From stdpp Require Import base option list.

Set Default Proof Using "Type".

(** ** Deep QEP hidden layer with skip connections
    (notebook "Deep Q-Exponential Processes", class [ToyDeepQEPHiddenLayer]) *)

Module DeepQEP.

Section HiddenLayer.
Context {scalar : Type}.

(** A tensor is its shape together with its entries listed in row-major
    order of their indices (the content of the tensor, whatever strides
    hold it in memory). *)
Record Tensor := mkTensor { shape : list nat; data : list scalar }.

Definition numel (s : list nat) : nat := foldr Nat.mul 1 s.

Definition well_formed (t : Tensor) : Prop :=
  length (data t) = numel (shape t).

(** [lead t] are the sizes of all dimensions but the last one and
    [last_dim t] is the size of the last (feature) dimension. *)
Definition lead (t : Tensor) : list nat := removelast (shape t).
Definition last_dim (t : Tensor) : nat := List.last (shape t) 0.

(** [row t r] is the feature vector stored at flat position [r] of the
    leading dimensions. *)
Definition row (t : Tensor) (r : nat) : list scalar :=
  take (last_dim t) (drop (r * last_dim t) (data t)).

(** [t.unsqueeze(0)] *)
Definition unsqueeze0 (t : Tensor) : Tensor :=
  mkTensor (1 :: shape t) (data t).

(** [t.expand(sizes)] for the use made of it by the layer: the leading
    dimension of size one is repeated, the others keep their size.
    Broadcasting of inner dimensions does not occur in the layer and is
    left out of the model ([None]). *)
Definition expand (sizes : list nat) (t : Tensor) : option Tensor :=
  match sizes, shape t with
  | n :: rest, 1 :: rest' =>
      if bool_decide (rest = rest')
      then Some (mkTensor (n :: rest) (mjoin (replicate n (data t))))
      else None
  | _, _ => None
  end.

(** The value of [inp.unsqueeze(0).expand(n, *inp.shape)]: [n] copies of
    [inp] stacked along a new leading dimension. *)
Definition expanded (n : nat) (inp : Tensor) : Tensor :=
  mkTensor (n :: shape inp) (mjoin (replicate n (data inp))).

(** [torch.cat(ts, dim=-1)].  One-dimensional empty tensors are skipped
    (torch's legacy rule); the remaining tensors must have at least one
    dimension and agree on every dimension but the last, otherwise torch
    raises ([None]).  Row [r] of the result is the concatenation of the
    rows [r] of the arguments. *)
Definition legacy_empty (t : Tensor) : Prop := shape t = [0].

Definition cat_compatible (t0 t : Tensor) : Prop :=
  shape t ≠ [] ∧ lead t = lead t0.

#[global] Instance legacy_empty_dec t : Decision (legacy_empty t).
Proof. unfold legacy_empty. apply _. Defined.

#[global] Instance cat_compatible_dec t0 t : Decision (cat_compatible t0 t).
Proof. unfold cat_compatible. apply _. Defined.

Definition cat_row (ts : list Tensor) (r : nat) : list scalar :=
  mjoin ((λ t, row t r) <$> ts).

Definition cat_last (ts : list Tensor) : option Tensor :=
  match ts with
  | [] => None
  | _ :: _ =>
      match filter (λ t, ¬ legacy_empty t) ts with
      | [] => Some (mkTensor [0] [])
      | t0 :: rest =>
          if bool_decide (Forall (cat_compatible t0) (t0 :: rest))
          then Some (mkTensor
                       (lead t0 ++ [sum_list (last_dim <$> (t0 :: rest))])
                       (mjoin (cat_row (t0 :: rest) <$> seq 0 (numel (lead t0)))))
          else None
      end
  end.

(** The shapes met in the deep QEP: the previous layer's samples [xs] have
    shape [ns x pre x D0] (sample dimension, batch dimensions, features) and
    every additional input has shape [pre x Di]. *)
Definition skip_shapes (ns : nat) (pre : list nat) (D0 : nat) (xs : Tensor)
    (other_inputs : list Tensor) : Prop :=
  shape xs = ns :: pre ++ [D0] ∧ well_formed xs ∧
  Forall (λ inp, well_formed inp ∧ shape inp ≠ [] ∧ lead inp = pre) other_inputs.

(** The first argument of the layer is either a tensor, the
    [MultitaskMultivariateQExponential] produced by the previous layer, or
    some other object such as a plain [MultivariateQExponential]. *)
Context {Dist RNG : Type}.

Inductive LayerInput :=
| InTensor (t : Tensor)
| InMultitask (d : Dist)
| InOther (d : Dist).

(** [x.rsample()] draws from the generator state and returns the sample. *)
Variable rsample : Dist → RNG → Tensor * RNG.

(** The arguments handed to [DeepQEPLayer.__call__] by
    [super().__call__(x, are_samples=...)]. *)
Record SuperCall := mkSuperCall { inputs : LayerInput; are_samples : bool }.

(** [ToyDeepQEPHiddenLayer.__call__(self, x, *other_inputs, **kwargs)].
    [num_likelihood_samples] is the value of the global setting
    [qpytorch.settings.num_likelihood_samples]; [kwargs] is not used by the
    method.  The result is the call made to the base class, together with
    the generator state; [None] stands for a raised exception. *)
Definition __call__ (num_likelihood_samples : nat)
    (x : LayerInput) (other_inputs : list Tensor) (g : RNG)
    : option (SuperCall * RNG) :=
  if bool_decide (other_inputs ≠ []) then
    let '(x, g) :=
      match x with
      | InMultitask d => let '(s, g') := rsample d g in (InTensor s, g')
      | _ => (x, g)
      end in
    processed_inputs ←
      mapM (λ inp, expand (num_likelihood_samples :: shape inp) (unsqueeze0 inp))
           other_inputs;
    match x with
    | InTensor t =>
        x ← cat_last (t :: processed_inputs);
        Some (mkSuperCall (InTensor x) true, g)
    | _ => None
    end
  else Some (mkSuperCall x false, g).

(** The previous layer's output as a tensor of samples: the tensor itself,
    or the draw made from a multitask distribution. *)
Definition sampled_output (x : LayerInput) (g : RNG) : option (Tensor * RNG) :=
  match x with
  | InTensor t => Some (t, g)
  | InMultitask d => Some (rsample d g)
  | InOther _ => None
  end.

End HiddenLayer.

Arguments Tensor : clear implicits.
Arguments LayerInput : clear implicits.
Arguments SuperCall : clear implicits.

End DeepQEP.

(** ** Kernels with additive or product structure
    (notebook "Kernels with Additive or Product Structure") *)

Module Kernels.

Section Composition.
Context {point scalar : Type}.
Variables add mul : scalar → scalar → scalar.

(** Modelled from the spec: the kernel classes and their operators [+] and
    [*] ([Kernel.__add__], [Kernel.__mul__], [AdditiveKernel],
    [ProductKernel]) are not under src/.  Following the spec, kernels form an
    algebra closed under sum and product, represented as a tree whose
    composite nodes hold child kernels; a leaf is a covariance function
    [k(x, x')]. *)
Inductive Kernel :=
| BaseKernel (k : point → point → scalar)
| AdditiveKernel (k1 k2 : Kernel)
| ProductKernel (k1 k2 : Kernel).

(** Modelled from the spec: [Kernel.forward] is not under src/.  The
    covariance function of a composite kernel is the one the notebook gives:
    [k_sum(x, x') = sum_i k_i(x, x')] and [k_prod(x, x') = prod_i k_i(x, x')]. *)
Fixpoint covariance (K : Kernel) (x x' : point) : scalar :=
  match K with
  | BaseKernel k => k x x'
  | AdditiveKernel k1 k2 => add (covariance k1 x x') (covariance k2 x x')
  | ProductKernel k1 k2 => mul (covariance k1 x x') (covariance k2 x x')
  end.

(** A covariance matrix, row by row. *)
Definition Matrix : Type := list (list scalar).

(** Modelled from the spec: [Kernel.__call__] is not under src/.  Given a
    batch of input points a kernel returns the covariance operator of the
    batch: entry [(i, j)] is the covariance of [X_i] and [X_j]. *)
Definition evaluate (K : Kernel) (X : list point) : Matrix :=
  (λ x, (λ x', covariance K x x') <$> X) <$> X.

(** [A + B] and [A * B] on covariance matrices act entry by entry on two
    matrices of the same shape.  Operands of different shapes (broadcast or
    rejected by torch) are outside the model: [None]. *)
Definition same_shape (A B : Matrix) : Prop :=
  Forall2 (λ a b, length a = length b) A B.

#[global] Instance same_shape_dec A B : Decision (same_shape A B).
Proof. unfold same_shape. apply _. Defined.

Definition elementwise (op : scalar → scalar → scalar) (A B : Matrix)
    : option Matrix :=
  if bool_decide (same_shape A B)
  then Some (zip_with (zip_with op) A B)
  else None.

(** Implementation 1 of the notebook:
    [spectral_mixture_kernel = (rbf_kernel_1 * cos_kernel_1) + (rbf_kernel_2 * cos_kernel_2)]
    followed by [covar = spectral_mixture_kernel(X)]. *)
Definition implementation_1 (rbf_kernel_1 cos_kernel_1 rbf_kernel_2 cos_kernel_2 : Kernel)
    (X : list point) : Matrix :=
  let spectral_mixture_kernel :=
    AdditiveKernel (ProductKernel rbf_kernel_1 cos_kernel_1)
                   (ProductKernel rbf_kernel_2 cos_kernel_2) in
  evaluate spectral_mixture_kernel X.

(** Implementation 2 of the notebook:
    [covar = rbf_kernel_1(X) * cos_kernel_1(X) + rbf_kernel_2(X) * cos_kernel_2(X)]. *)
Definition implementation_2 (rbf_kernel_1 cos_kernel_1 rbf_kernel_2 cos_kernel_2 : Kernel)
    (X : list point) : option Matrix :=
  p1 ← elementwise mul (evaluate rbf_kernel_1 X) (evaluate cos_kernel_1 X);
  p2 ← elementwise mul (evaluate rbf_kernel_2 X) (evaluate cos_kernel_2 X);
  elementwise add p1 p2.

End Composition.

Arguments Kernel : clear implicits.
Arguments Matrix : clear implicits.

End Kernels.

(** ** Tensor operations used by the notebooks' data handling *)

Module Torch.
Import DeepQEP.

Section Ops.
Context {scalar : Type}.

(** [len(t)], [t.size(0)]: the size of the first dimension; a tensor
    without dimensions has none. *)
Definition len (t : Tensor scalar) : option nat := head (shape t).

(** The number of entries below one position of the first dimension, and
    the entries of [t[i]]. *)
Definition inner (t : Tensor scalar) : nat := numel (tail (shape t)).

Definition item (t : Tensor scalar) (i : nat) : list scalar :=
  take (inner t) (drop (i * inner t) (data t)).

(** [t[:k]] for [k >= 0]: the first [k] positions of the first dimension,
    all of them when there are fewer. *)
Definition slice_to (k : nat) (t : Tensor scalar) : option (Tensor scalar) :=
  match shape t with
  | n :: rest => Some (mkTensor (k `min` n :: rest) (take (k * numel rest) (data t)))
  | [] => None
  end.

(** [t[k:]] for [k >= 0]: what [t[:k]] leaves. *)
Definition slice_from (k : nat) (t : Tensor scalar) : option (Tensor scalar) :=
  match shape t with
  | n :: rest => Some (mkTensor (n - k :: rest) (drop (k * numel rest) (data t)))
  | [] => None
  end.

(** [t[indices]] for a one-dimensional tensor of non-negative indices: the
    positions of the first dimension in the order of [indices]; an index
    that is out of range raises. *)
Definition index_select (indices : list nat) (t : Tensor scalar)
    : option (Tensor scalar) :=
  match shape t with
  | n :: rest =>
      if bool_decide (Forall (λ i, i < n) indices)
      then Some (mkTensor (length indices :: rest) (mjoin (item t <$> indices)))
      else None
  | [] => None
  end.

(** [torch.cat(ts)], along the first dimension: the tensors must agree on
    every dimension but the first; one-dimensional empty tensors are
    skipped.  In row-major order the entries of the result are the entries
    of the arguments one after the other. *)
Definition first_dim (t : Tensor scalar) : nat := hd 0 (shape t).

Definition cat_first_compatible (t0 t : Tensor scalar) : Prop :=
  shape t ≠ [] ∧ tail (shape t) = tail (shape t0).

#[global] Instance cat_first_compatible_dec t0 t :
  Decision (cat_first_compatible t0 t).
Proof. unfold cat_first_compatible. apply _. Defined.

Definition cat_first (ts : list (Tensor scalar)) : option (Tensor scalar) :=
  match ts with
  | [] => None
  | _ :: _ =>
      match filter (λ t, ¬ legacy_empty t) ts with
      | [] => Some (mkTensor [0] [])
      | t0 :: rest =>
          if bool_decide (Forall (cat_first_compatible t0) (t0 :: rest))
          then Some (mkTensor
                       (sum_list (first_dim <$> (t0 :: rest)) :: tail (shape t0))
                       (mjoin (data <$> (t0 :: rest))))
          else None
      end
  end.

(** [t[:, :-m]] for [m >= 1]: of every position of the first dimension,
    all positions of the second dimension but the last [m] (none when
    there are not more than [m]). *)
Definition drop_last_columns (m : nat) (t : Tensor scalar)
    : option (Tensor scalar) :=
  match shape t with
  | n :: c :: rest =>
      Some (mkTensor (n :: c - m :: rest)
              (mjoin ((λ i, take ((c - m) * numel rest) (item t i)) <$> seq 0 n)))
  | _ => None
  end.

(** [t[:, -1]]: of every position of the first dimension, the last position
    of the second dimension; raises when the second dimension is empty. *)
Definition last_column (t : Tensor scalar) : option (Tensor scalar) :=
  match shape t with
  | n :: S c :: rest =>
      Some (mkTensor (n :: rest)
              (mjoin ((λ i, drop (c * numel rest) (item t i)) <$> seq 0 n)))
  | _ => None
  end.

(** [t.mT]: the last two dimensions exchanged. *)
Definition transpose_block (n d : nat) (l : list scalar) : list scalar :=
  mjoin ((λ j, omap (λ i, l !! (i * d + j)) (seq 0 n)) <$> seq 0 d).

Definition mT (t : Tensor scalar) : option (Tensor scalar) :=
  match reverse (shape t) with
  | d :: n :: rpre =>
      Some (mkTensor (reverse rpre ++ [d; n])
              (mjoin ((λ b, transpose_block n d
                              (take (n * d) (drop (b * (n * d)) (data t))))
                      <$> seq 0 (numel (reverse rpre)))))
  | _ => None
  end.

(** [t.unsqueeze(-1)] *)
Definition unsqueeze_last (t : Tensor scalar) : Tensor scalar :=
  mkTensor (shape t ++ [1]) (data t).

End Ops.
End Torch.

(** ** Preparing the data (notebooks "Stochastic Variational GP Regression
    with Contour Integral Quadrature" and "Deep Q-Exponential Processes") *)

Module DataPreparation.
Import DeepQEP Torch.

(** [math.floor(f)] of a Python float (a binary64 number): the largest
    integer not above [f]; infinities and NaN raise. *)
Definition floor (f : float) : option Z :=
  match Prim2SF f with
  | S754_zero _ => Some 0%Z
  | S754_finite s m e =>
      let z := if s then Z.neg m else Z.pos m in
      Some (if (0 <=? e)%Z then z * 2 ^ e else z / 2 ^ (- e))%Z
  | S754_infinity _ | S754_nan => None
  end.

(** [int(floor(0.8 * n))] for the length [n] of a tensor: [n] is converted
    to a float, multiplied by the binary64 number nearest to 0.8 and rounded
    down.  Lengths of [2^63] and more do not occur and are outside the
    model. *)
Definition train_n (n : nat) : option nat :=
  if bool_decide (Z.of_nat n < 2 ^ 63)%Z
  then Z.to_nat <$> floor (0x1.999999999999ap-1
                           * PrimFloat.of_uint63 (Uint63.of_Z (Z.of_nat n)))%float
  else None.

(** Whether [floor(0.8 * z)], computed in binary64, is the integer part of
    [4 z / 5], for each of the [count] integers from [z] upwards. *)
Fixpoint exact_from (count : nat) (z : Z) : bool :=
  match count with
  | 0 => true
  | S count =>
      bool_decide (floor (0x1.999999999999ap-1
                          * PrimFloat.of_uint63 (Uint63.of_Z z))%float
                   = Some (4 * z / 5)%Z)
      && exact_from count (z + 1)
  end.

Section Split.
Context {scalar : Type}.

(** The split of the data into the first 80% and the rest:
    [train_n = int(floor(0.8 * len(X)))],
    [train_x = X[:train_n, :]], [train_y = y[:train_n]],
    [test_x = X[train_n:, :]], [test_y = y[train_n:]]. *)
Record Split := mkSplit {
  train_x : Tensor scalar; train_y : Tensor scalar;
  test_x : Tensor scalar; test_y : Tensor scalar }.

Definition train_test_split (X y : Tensor scalar) : option Split :=
  n ← len X;
  train_n ← train_n n;
  guard (2 ≤ length (shape X));;
  train_x ← slice_to train_n X;
  train_y ← slice_to train_n y;
  test_x ← slice_from train_n X;
  test_y ← slice_from train_n y;
  Some (mkSplit train_x train_y test_x test_y).

(** [torch.randperm(n)] draws a permutation of [0 .. n-1] from the
    generator. *)
Context {RNG : Type}.
Variable randperm : nat → RNG → list nat * RNG.

(** [indices = torch.randperm(X.size(0))[:m]], [X = X[indices]],
    [y = y[indices]]: a random subset of at most [m] data points. *)
Definition subsample (m : nat) (X y : Tensor scalar) (g : RNG)
    : option (Tensor scalar * Tensor scalar * RNG) :=
  n ← len X;
  let '(perm, g) := randperm n g in
  let indices := take m perm in
  X ← index_select indices X;
  y ← index_select indices y;
  Some (X, y, g).

(** [inducing_points = train_x[torch.randperm(train_x.size(0))[:m]]] *)
Definition inducing_points (m : nat) (train_x : Tensor scalar) (g : RNG)
    : option (Tensor scalar * RNG) :=
  n ← len train_x;
  let '(perm, g) := randperm n g in
  ip ← index_select (take m perm) train_x;
  Some (ip, g).

End Split.

Arguments Split : clear implicits.

End DataPreparation.

(** ** Prediction loops over a test loader *)

Module Evaluation.
Import DeepQEP Torch.

Section Loader.
Context {A : Type}.

(** [DataLoader(dataset, batch_size=b, shuffle=False)]: the samples in
    their order, [b] at a time, the last batch holding what is left.  A
    batch is the list of its samples.  A batch size of zero is refused. *)
Fixpoint batches (fuel batch_size : nat) (dataset : list A) : list (list A) :=
  match fuel, dataset with
  | S fuel, _ :: _ =>
      take batch_size dataset :: batches fuel batch_size (drop batch_size dataset)
  | _, _ => []
  end.

Definition DataLoader (dataset : list A) (batch_size : nat) : option (list (list A)) :=
  if bool_decide (batch_size = 0) then None
  else Some (batches (length dataset) batch_size dataset).

End Loader.

Section Means.
Context {scalar batch State : Type}.

(** A one-dimensional tensor with as many entries as its shape says. *)
Definition vector (t : Tensor scalar) : Prop :=
  shape t = [length (data t)].

(** [model(x_batch).mean.cpu()]; calling the model may change its state
    (caches, random number generator). *)
Variable predictive_mean : batch → State → Tensor scalar * State.
(** The entry of [torch.tensor([0.])]. *)
Variable zero : scalar.

(** The means the model returns for the batches of a loader, one call after
    the other. *)
Fixpoint predictions (test_loader : list batch) (st : State)
    : list (Tensor scalar) * State :=
  match test_loader with
  | [] => ([], st)
  | x_batch :: rest =>
      let '(m, st) := predictive_mean x_batch st in
      let '(ms, st) := predictions rest st in
      (m :: ms, st)
  end.

(** The loop collecting the predictive means of all batches:
    [means = torch.tensor([0.])], then for every batch
    [means = torch.cat([means, preds.mean.cpu()])], and at the end
    [means = means[1:]]. *)
Definition collect_step (acc : option (Tensor scalar) * State) (x_batch : batch)
    : option (Tensor scalar) * State :=
  let '(means, st) := acc in
  match means with
  | Some means =>
      let '(m, st) := predictive_mean x_batch st in
      (cat_first [means; m], st)
  | None => (None, st)
  end.

Definition collect_means (test_loader : list batch) (st : State)
    : option (Tensor scalar * State) :=
  let '(means, st) :=
    foldl collect_step (Some (mkTensor [1] [zero]), st) test_loader in
  means ← means;
  means ← slice_from 1 means;
  Some (means, st).

End Means.

Section Predict.
Context {scalar batch Dist RNG : Type}.

(** A tensor of shape [ns x b] for some [b]: one row for each of [ns]
    samples. *)
Definition sample_matrix (ns : nat) (t : Tensor scalar) : Prop :=
  well_formed t ∧ shape t ≠ [] ∧ lead t = [ns].

(** [self(x_batch)]: a pass through the deep QEP, which draws samples. *)
Variable forward : batch → RNG → Dist * RNG.
(** [self.likelihood(dist)], which may draw from the generator as well, and
    the [mean] and [variance] of its result. *)
Variable likelihood : Dist → RNG → Dist * RNG.
Variables mean variance : Dist → Tensor scalar.
(** [likelihood.log_marginal(y_batch, dist)] *)
Variable log_marginal : batch → Dist → RNG → Tensor scalar * RNG.

(** One turn of the loop of [predict]: two passes through the model, the
    first for the predictive mean and variance, the second for the
    log-likelihood. *)
Record Collected := mkCollected {
  mus : list (Tensor scalar);
  variances : list (Tensor scalar);
  lls : list (Tensor scalar) }.

Definition predict_step (acc : Collected * RNG) (b : batch) : Collected * RNG :=
  let '(c, g) := acc in
  let '(out, g) := forward b g in
  let '(preds, g) := likelihood out g in
  let '(out', g) := forward b g in
  let '(ll, g) := log_marginal b out' g in
  (mkCollected (mus c ++ [mean preds])
               (variances c ++ [variance preds])
               (lls c ++ [ll]), g).

(** [DeepQEP.predict(self, test_loader)]; the notebook calls it on [model],
    the object its body refers to. *)
Definition predict (test_loader : list batch) (g : RNG)
    : option (Tensor scalar * Tensor scalar * Tensor scalar * RNG) :=
  let '(c, g) := foldl predict_step (mkCollected [] [] [], g) test_loader in
  m ← cat_last (mus c);
  v ← cat_last (variances c);
  l ← cat_last (lls c);
  Some (m, v, l, g).

End Predict.

Arguments Collected : clear implicits.

End Evaluation.

(** * Properties *)

(** ** The skip connection of the deep QEP hidden layer *)

Module DeepQEPFacts.
Import DeepQEP.

Section Rows.
Context {A : Type}.
Implicit Types (l : list A) (f : nat → list A).

(** Chunks of equal length laid out one after the other: the [r]-th chunk
    is found at offset [r * d]. *)
Lemma chunk_of_join f d m r k :
  (∀ i, k ≤ i < k + m → length (f i) = d) →
  r < m →
  take d (drop (r * d) (mjoin (f <$> seq k m))) = f (k + r).
Proof.
  revert r k. induction m as [|m IH]; intros r k Hlen Hr; [lia|].
  cbn [seq fmap list_fmap mjoin list_join].
  assert (Hk : length (f k) = d) by (apply Hlen; lia).
  destruct r as [|r].
  - rewrite Nat.add_0_r, Nat.mul_0_l, drop_0.
    rewrite take_app_le by lia.
    apply take_ge. lia.
  - replace (S r * d) with (length (f k) + r * d) by lia.
    rewrite drop_app_add.
    replace (k + S r) with (S k + r) by lia.
    apply IH; [|lia]. intros i Hi. apply Hlen. lia.
Qed.

Lemma length_join_chunks f d m k :
  (∀ i, k ≤ i < k + m → length (f i) = d) →
  length (mjoin (f <$> seq k m)) = m * d.
Proof.
  revert k. induction m as [|m IH]; intros k Hlen; [done|].
  cbn [seq fmap list_fmap mjoin list_join].
  rewrite length_app, Hlen by lia.
  unfold mjoin, fmap in IH. rewrite IH; [lia|].
  intros i Hi. apply Hlen. lia.
Qed.

(** A list repeated [n] times: reading at offset [s * length l + i] gives
    what reading [l] at offset [i] gives. *)
Lemma drop_join_replicate l n s i :
  s < n → i ≤ length l →
  drop (s * length l + i) (mjoin (replicate n l)) =
  drop i l ++ mjoin (replicate (n - S s) l).
Proof.
  revert n. induction s as [|s IH]; intros n Hs Hi.
  - destruct n as [|n]; [lia|]. cbn [replicate mjoin list_join Nat.mul Nat.add].
    rewrite Nat.sub_succ, Nat.sub_0_r. by rewrite drop_app_le.
  - destruct n as [|n]; [lia|]. cbn [replicate mjoin list_join].
    replace (S s * length l + i) with (length l + (s * length l + i)) by lia.
    rewrite drop_app_add. rewrite Nat.sub_succ. apply IH; lia.
Qed.

End Rows.

Section Layer.
Context {scalar Dist RNG : Type}.
Variable rsample : Dist → RNG → Tensor scalar * RNG.
Implicit Types (t inp : Tensor scalar) (ts : list (Tensor scalar)).

Lemma numel_app (a b : list nat) : numel (a ++ b) = numel a * numel b.
Proof.
  unfold numel. induction a as [|n a IH]; cbn [app foldr]; [lia|].
  rewrite IH. lia.
Qed.

Lemma shape_split t :
  shape t ≠ [] → shape t = lead t ++ [last_dim t].
Proof. intros Hne. by apply app_removelast_last. Qed.

Lemma numel_shape t :
  shape t ≠ [] → numel (shape t) = numel (lead t) * last_dim t.
Proof.
  intros Hne. rewrite (shape_split t Hne) at 1.
  rewrite numel_app. cbn. lia.
Qed.

(** In a well-formed tensor every row has the full feature width. *)
Lemma length_row t r :
  well_formed t → shape t ≠ [] → r < numel (lead t) →
  length (row t r) = last_dim t.
Proof.
  unfold well_formed, row. intros Hc Hne Hr.
  rewrite numel_shape in Hc by done.
  rewrite length_take, length_drop. nia.
Qed.

Lemma expand_unsqueeze0 n inp :
  expand (n :: shape inp) (unsqueeze0 inp) = Some (expanded n inp).
Proof. unfold expand, unsqueeze0; cbn. by rewrite bool_decide_eq_true_2. Qed.

Lemma mapM_expand n (l : list (Tensor scalar)) :
  mapM (λ inp, expand (n :: shape inp) (unsqueeze0 inp)) l
  = Some (expanded n <$> l).
Proof.
  apply mapM_Some. induction l; constructor; auto using expand_unsqueeze0.
Qed.

Lemma lead_expanded n inp :
  shape inp ≠ [] → lead (expanded n inp) = n :: lead inp.
Proof. unfold lead; cbn. by destruct (shape inp). Qed.

Lemma last_dim_expanded n inp :
  shape inp ≠ [] → last_dim (expanded n inp) = last_dim inp.
Proof. unfold last_dim; cbn. by destruct (shape inp). Qed.

Lemma well_formed_expanded n inp :
  well_formed inp → well_formed (expanded n inp).
Proof.
  unfold well_formed; cbn; intros Hc.
  rewrite length_join, fmap_replicate, sum_list_replicate. unfold numel in Hc. lia.
Qed.

(** Broadcasting: sample [s] of the expanded input holds the rows of the
    input itself. *)
Lemma row_expanded n inp s i :
  well_formed inp → shape inp ≠ [] →
  s < n → i < numel (lead inp) →
  row (expanded n inp) (s * numel (lead inp) + i) = row inp i.
Proof.
  intros Hc Hne Hs Hi. unfold row.
  rewrite last_dim_expanded by done. cbn [data expanded].
  unfold well_formed in Hc. rewrite numel_shape in Hc by done.
  replace ((s * numel (lead inp) + i) * last_dim inp)
    with (s * length (data inp) + i * last_dim inp) by nia.
  rewrite drop_join_replicate by nia.
  apply take_app_le. rewrite length_drop. nia.
Qed.

Lemma filter_all {A} (P : A → Prop) `{!∀ x, Decision (P x)} (l : list A) :
  Forall P l → filter P l = l.
Proof.
  induction 1 as [|x l Hx _ IH]; [done|].
  rewrite filter_cons_True by done. by rewrite IH.
Qed.

Lemma cat_args_compatible ns pre D0 xs other_inputs :
  skip_shapes ns pre D0 xs other_inputs →
  Forall (λ t, well_formed t ∧ shape t ≠ [] ∧ lead t = ns :: pre)
         (xs :: (expanded ns <$> other_inputs)).
Proof.
  intros (Hshape & Hc & Hall). constructor.
  - split; [done|]. split; [by rewrite Hshape|].
    unfold lead. rewrite Hshape, app_comm_cons. apply removelast_last.
  - apply Forall_fmap. eapply Forall_impl; [exact Hall|].
    intros inp (Hci & Hne & Hlead); unfold compose.
    split; [by apply well_formed_expanded|].
    split; [done|]. by rewrite lead_expanded, Hlead.
Qed.

Lemma cat_last_rows ts t0 pre :
  Forall (λ t, well_formed t ∧ shape t ≠ [] ∧ lead t = pre) (t0 :: ts) →
  pre ≠ [] →
  ∃ t, cat_last (t0 :: ts) = Some t
     ∧ shape t = pre ++ [sum_list (last_dim <$> (t0 :: ts))]
     ∧ well_formed t
     ∧ ∀ r, r < numel pre → row t r = cat_row (t0 :: ts) r.
Proof.
  intros Hall Hpre.
  assert (Hlead0 : lead t0 = pre) by (by inversion Hall as [|?? (_ & _ & ?)]).
  assert (Hkeep : filter (λ t, ¬ legacy_empty t) (t0 :: ts) = t0 :: ts).
  { apply filter_all. eapply Forall_impl; [exact Hall|].
    intros t (_ & _ & Hl) He. unfold legacy_empty in He.
    unfold lead in Hl. rewrite He in Hl. cbn in Hl. congruence. }
  assert (Hlen : ∀ r, r < numel pre →
            length (cat_row (t0 :: ts) r) = sum_list (last_dim <$> (t0 :: ts))).
  { intros r Hr. unfold cat_row. rewrite length_join, <- list_fmap_compose.
    f_equal. apply Forall_fmap_ext_1. eapply Forall_impl; [exact Hall|].
    intros t (Hc & Hne & Hl); cbn. apply length_row; [done..|by rewrite Hl]. }
  eexists. split.
  { unfold cat_last. rewrite Hkeep. rewrite bool_decide_eq_true_2; [reflexivity|].
    eapply Forall_impl; [exact Hall|]. intros t (_ & Hne & Hl).
    split; [done|congruence]. }
  rewrite Hlead0. split; [done|]. split.
  - unfold well_formed; cbn [data shape].
    rewrite numel_app.
    rewrite (length_join_chunks _ (sum_list (last_dim <$> (t0 :: ts)))); [cbn; lia|].
    intros i Hi. apply Hlen. lia.
  - intros r Hr. unfold row at 1. cbn [data].
    replace (last_dim _) with (sum_list (last_dim <$> (t0 :: ts))).
    + rewrite chunk_of_join; [done| |done]. intros i Hi. apply Hlen. lia.
    + unfold last_dim at 2; cbn [shape]. by rewrite last_last.
Qed.

(** Without additional inputs the layer hands its argument on untouched
    and does not mark it as samples. *)
Lemma call_without_other_inputs (n : nat) (x : LayerInput scalar Dist) (g : RNG) :
  __call__ rsample n x [] g = Some (mkSuperCall x false, g).
Proof. reflexivity. Qed.

(** An argument that is neither a tensor nor a multitask distribution
    cannot be concatenated with the additional inputs. *)
Lemma call_rejects_other_objects (n : nat) (d : Dist)
    (other_inputs : list (Tensor scalar)) (g : RNG) :
  other_inputs ≠ [] →
  __call__ rsample n (InOther d) other_inputs g = None.
Proof.
  intros Hne. unfold __call__. rewrite bool_decide_eq_true_2 by done.
  rewrite mapM_expand. reflexivity.
Qed.

(** C8.  When the hidden layer is called with additional inputs, the tensor
    handed on to the layer machinery has the sample dimension
    [num_likelihood_samples] in front and, at every sample [s] and every
    position [n] of the batch, the feature vector of the previous layer's
    sample followed by the feature vectors of the additional inputs at [n]:
    each additional input is broadcast across the samples and concatenated
    along the last dimension, and the layer is told that it receives
    samples ([are_samples = True]). *)
Theorem skip_connection_broadcast_concat
    (num_likelihood_samples : nat) (x : LayerInput scalar Dist)
    (other_inputs : list (Tensor scalar)) (g g' : RNG)
    (xs : Tensor scalar) (pre : list nat) (D0 : nat) :
  other_inputs ≠ [] →
  sampled_output rsample x g = Some (xs, g') →
  skip_shapes num_likelihood_samples pre D0 xs other_inputs →
  ∃ t, __call__ rsample num_likelihood_samples x other_inputs g
         = Some (mkSuperCall (InTensor t) true, g')
     ∧ shape t = num_likelihood_samples :: pre
                   ++ [D0 + sum_list (last_dim <$> other_inputs)]
     ∧ well_formed t
     ∧ ∀ s n, s < num_likelihood_samples → n < numel pre →
         row t (s * numel pre + n)
         = row xs (s * numel pre + n) ++ mjoin ((λ inp, row inp n) <$> other_inputs).
Proof.
  intros Hne Hx Hshapes.
  pose proof (cat_args_compatible _ _ _ _ _ Hshapes) as Hargs.
  destruct (cat_last_rows _ _ _ Hargs) as (t & Hcat & Hsh & Hc & Hrows); [done|].
  destruct Hshapes as (Hshape & Hcx & Hall).
  exists t. split; [|split; [|split; [done|]]].
  - unfold __call__. rewrite bool_decide_eq_true_2 by done.
    assert (Hbody : ∀ g0 : RNG,
      (processed_inputs ←
         mapM (λ inp, expand (num_likelihood_samples :: shape inp) (unsqueeze0 inp))
              other_inputs;
       x0 ← cat_last (xs :: processed_inputs);
       Some (mkSuperCall (InTensor (Dist:=Dist) x0) true, g0))
      = Some (mkSuperCall (InTensor t) true, g0)).
    { intros g0. rewrite mapM_expand. cbn [mbind option_bind]. by rewrite Hcat. }
    destruct x as [t0|d|d]; cbn in Hx; [| |done].
    + injection Hx as -> ->. apply Hbody.
    + injection Hx as Hx. rewrite Hx. apply Hbody.
  - rewrite Hsh, <- app_comm_cons. do 2 f_equal.
    rewrite fmap_cons, <- list_fmap_compose. cbn [sum_list sum_list_with].
    assert (last_dim xs = D0) as ->.
    { unfold last_dim. by rewrite Hshape, app_comm_cons, last_last. }
    assert (last_dim ∘ expanded num_likelihood_samples <$> other_inputs
            = last_dim <$> other_inputs) as ->; [|done].
    apply Forall_fmap_ext_1.
    eapply Forall_impl; [exact Hall|]. intros inp (_ & ? & _); cbn.
    by apply last_dim_expanded.
  - intros s n Hs Hn.
    rewrite Hrows
      by (change (numel (num_likelihood_samples :: pre))
            with (num_likelihood_samples * numel pre); nia).
    unfold cat_row; cbn [fmap list_fmap mjoin list_join]. f_equal.
    change (mjoin ((λ t1, row t1 (s * numel pre + n)) <$> (expanded num_likelihood_samples <$> other_inputs))
            = mjoin ((λ inp, row inp n) <$> other_inputs)).
    rewrite <- list_fmap_compose. f_equal. apply Forall_fmap_ext_1.
    eapply Forall_impl; [exact Hall|]. intros inp (Hci & Hnei & Hl); cbn.
    rewrite <- Hl. apply row_expanded; [done..|by rewrite Hl].
Qed.

End Layer.

(** Two samples of a hidden layer with one output on a batch of two points,
    and the two-feature model input passed as the skip connection. *)
Example skip_connection_run :
  __call__ (Dist:=unit) (λ _ (g : nat), (mkTensor [0] [], S g)) 2
       (InTensor (mkTensor [2; 2; 1] [10; 11; 12; 13]%Z))
       [mkTensor [2; 2] [1; 2; 3; 4]%Z] 0
  = Some (mkSuperCall
            (InTensor (mkTensor [2; 2; 3]
                         [10; 1; 2;  11; 3; 4;  12; 1; 2;  13; 3; 4]%Z))
            true, 0).
Proof. vm_compute. reflexivity. Qed.

(** Without additional inputs the argument is passed on untouched. *)
Example no_skip_connection_run :
  __call__ (scalar:=Z) (λ _ (g : nat), (mkTensor [0] [], S g)) 2
       (InMultitask tt) [] 0
  = Some (mkSuperCall (InMultitask tt) false, 0).
Proof. reflexivity. Qed.

(** Inputs whose batch dimension differs from the samples' make
    [torch.cat] fail. *)
Example skip_connection_mismatch :
  __call__ (Dist:=unit) (λ _ (g : nat), (mkTensor [0] [], S g)) 2
       (InTensor (mkTensor [2; 2; 1] [10; 11; 12; 13]%Z))
       [mkTensor [3; 1] [1; 2; 3]%Z] 0
  = None.
Proof. vm_compute. reflexivity. Qed.

Lemma skip_connection_broadcast_concat_witness :
  ∃ t, __call__ (λ (_ : unit) (g : nat),
               (mkTensor [2; 2; 1] [10; 11; 12; 13]%Z, S g)) 2
            (InMultitask tt) [mkTensor [2; 2] [1; 2; 3; 4]%Z] 0
         = Some (mkSuperCall (InTensor t) true, 1)
     ∧ shape t = 2 :: [2] ++ [1 + sum_list (last_dim <$> [mkTensor [2; 2] [1; 2; 3; 4]%Z])]
     ∧ well_formed t
     ∧ ∀ s n, s < 2 → n < numel [2] →
         row t (s * numel [2] + n)
         = row (mkTensor [2; 2; 1] [10; 11; 12; 13]%Z) (s * numel [2] + n)
           ++ mjoin ((λ inp, row inp n) <$> [mkTensor [2; 2] [1; 2; 3; 4]%Z]).
Proof.
  apply (skip_connection_broadcast_concat
           (λ (_ : unit) (g : nat), (mkTensor [2; 2; 1] [10; 11; 12; 13]%Z, S g))
           2 (InMultitask tt) [mkTensor [2; 2] [1; 2; 3; 4]%Z] 0 1
           (mkTensor [2; 2; 1] [10; 11; 12; 13]%Z) [2] 1).
  - discriminate.
  - reflexivity.
  - split; [reflexivity|]. split; [reflexivity|].
    constructor; [|constructor].
    split; [reflexivity|]. split; [discriminate|reflexivity].
Defined.

End DeepQEPFacts.

(** ** Composition of kernels commutes with evaluation *)

Module KernelFacts.
Import Kernels.

Section Homomorphism.
Context {point scalar : Type}.
Variables add mul : scalar → scalar → scalar.
Implicit Types (K : Kernel point scalar) (X Y : list point).

(** Rows computed over the same points have the same length. *)
Lemma same_shape_rows (f g : point → point → scalar) (X Y : list point) :
  same_shape ((λ x, f x <$> Y) <$> X) ((λ x, g x <$> Y) <$> X).
Proof.
  unfold same_shape. induction X as [|x X IH]; constructor; [|exact IH].
  by rewrite !length_fmap.
Qed.

Lemma zip_with_rows (op : scalar → scalar → scalar) (f g : point → scalar) Y :
  zip_with op (f <$> Y) (g <$> Y) = (λ y, op (f y) (g y)) <$> Y.
Proof. induction Y as [|y Y IH]; [done|]. cbn. by rewrite IH. Qed.

(** Combining two matrices computed over the same points entry by entry
    gives the matrix of the combined entries. *)
Lemma elementwise_rows (op : scalar → scalar → scalar)
    (f g : point → point → scalar) X Y :
  elementwise op ((λ x, f x <$> Y) <$> X) ((λ x, g x <$> Y) <$> X)
  = Some ((λ x, (λ y, op (f x y) (g x y)) <$> Y) <$> X).
Proof.
  unfold elementwise.
  rewrite bool_decide_eq_true_2 by apply same_shape_rows. f_equal.
  induction X as [|x X IH]; [done|]. cbn. by rewrite zip_with_rows, IH.
Qed.

(** The sum of two kernel objects evaluates to the sum of their outputs. *)
Lemma evaluate_add K1 K2 X :
  elementwise add (evaluate add mul K1 X) (evaluate add mul K2 X)
  = Some (evaluate add mul (AdditiveKernel K1 K2) X).
Proof. unfold evaluate. by rewrite elementwise_rows. Qed.

(** The product of two kernel objects evaluates to the product of their
    outputs. *)
Lemma evaluate_mul K1 K2 X :
  elementwise mul (evaluate add mul K1 X) (evaluate add mul K2 X)
  = Some (evaluate add mul (ProductKernel K1 K2) X).
Proof. unfold evaluate. by rewrite elementwise_rows. Qed.

(** C9.  For every batch of inputs [X] and all kernels [k1 .. k4], the
    covariance obtained by evaluating the kernel object
    [(k1 * k2) + (k3 * k4)] at [X] is the covariance obtained by combining
    the outputs of the component kernels,
    [k1(X) * k2(X) + k3(X) * k4(X)]; the latter combination is always
    defined. *)
Theorem composite_kernel_evaluation (k1 k2 k3 k4 : Kernel point scalar) X :
  implementation_2 add mul k1 k2 k3 k4 X
  = Some (implementation_1 add mul k1 k2 k3 k4 X).
Proof.
  unfold implementation_2, implementation_1.
  rewrite !evaluate_mul. cbn [mbind option_bind].
  apply evaluate_add.
Qed.

End Homomorphism.

(** A linear kernel [x * x'] and a constant kernel on integer points. *)
Example spectral_mixture_run :
  implementation_1 Z.add Z.mul
    (BaseKernel Z.mul) (BaseKernel (λ _ _, 2%Z))
    (BaseKernel (λ x x', (x + x')%Z)) (BaseKernel Z.mul) [1; 2; 3]%Z
  = [[4; 10; 18]; [10; 24; 42]; [18; 42; 72]]%Z.
Proof. reflexivity. Qed.

Example spectral_mixture_run_outputs :
  implementation_2 Z.add Z.mul
    (BaseKernel Z.mul) (BaseKernel (λ _ _, 2%Z))
    (BaseKernel (λ x x', (x + x')%Z)) (BaseKernel Z.mul) [1; 2; 3]%Z
  = Some [[4; 10; 18]; [10; 24; 42]; [18; 42; 72]]%Z.
Proof. vm_compute. reflexivity. Qed.

End KernelFacts.

(** ** Facts about the tensor operations *)

Module TorchFacts.
Import DeepQEP Torch DeepQEPFacts.

Section Chunks.
Context {A : Type}.
Implicit Types (l : list A) (ls : list (list A)).

(** In a concatenation of chunks of one length, the [j]-th chunk is found
    at offset [j * d]. *)
Lemma chunk_of_join_list ls d j l :
  Forall (λ c, length c = d) ls →
  ls !! j = Some l →
  take d (drop (j * d) (mjoin ls)) = l.
Proof.
  intros Hall. revert j. induction Hall as [|c ls Hc _ IH]; intros j Hj; [done|].
  cbn [mjoin list_join]. destruct j as [|j]; cbn in Hj.
  - injection Hj as ->. rewrite Nat.mul_0_l, drop_0, take_app_le by lia.
    apply take_ge. lia.
  - replace (S j * d) with (length c + j * d) by lia.
    rewrite drop_app_add. by apply IH.
Qed.

Lemma length_join_list ls d :
  Forall (λ c, length c = d) ls → length (mjoin ls) = length ls * d.
Proof.
  induction 1 as [|c ls Hc _ IH]; [done|].
  change (mjoin (c :: ls)) with (c ++ mjoin ls).
  rewrite length_app. cbn [length]. lia.
Qed.

End Chunks.

Section Items.
Context {scalar : Type}.
Implicit Types (t : Tensor scalar).

Lemma inner_shape t n rest : shape t = n :: rest → inner t = numel rest.
Proof. unfold inner. by intros ->. Qed.

Lemma well_formed_length t n rest :
  shape t = n :: rest → well_formed t → length (data t) = n * numel rest.
Proof. unfold well_formed. by intros ->. Qed.

(** Every position of the first dimension of a well-formed tensor holds
    [inner t] entries. *)
Lemma length_item t n rest i :
  shape t = n :: rest → well_formed t → i < n →
  length (item t i) = inner t.
Proof.
  intros Hs Hw Hi. unfold item.
  rewrite (inner_shape _ _ _ Hs), length_take, length_drop.
  rewrite (well_formed_length _ _ _ Hs Hw). nia.
Qed.

(** For a matrix the positions of the first dimension are its rows. *)
Lemma item_row t n w i : shape t = [n; w] → item t i = row t i.
Proof.
  intros Hs. unfold item, row, inner, last_dim. rewrite Hs. cbn.
  by rewrite Nat.mul_1_r.
Qed.

(** For a vector they are its entries. *)
Lemma item_vector t n i :
  shape t = [n] → item t i = option_list (data t !! i).
Proof.
  intros Hs. unfold item, inner. rewrite Hs. cbn. rewrite Nat.mul_1_r.
  revert i. induction (data t) as [|x l IH]; intros [|i]; cbn; done.
Qed.

Lemma item_take t k i :
  i < k →
  take (inner t) (drop (i * inner t) (take (k * inner t) (data t))) = item t i.
Proof.
  intros Hi. unfold item. rewrite !take_drop_commute, take_take.
  do 2 f_equal. nia.
Qed.

Lemma item_drop t k i :
  take (inner t) (drop (i * inner t) (drop (k * inner t) (data t)))
  = item t (k + i).
Proof. unfold item. rewrite drop_drop. do 2 f_equal. lia. Qed.

End Items.
End TorchFacts.

(** ** Preparing the data *)

Module DataPreparationFacts.
Import DeepQEP Torch DataPreparation DeepQEPFacts TorchFacts.

Lemma exact_from_sound count z0 z :
  exact_from count z0 = true →
  (z0 ≤ z < z0 + Z.of_nat count)%Z →
  floor (0x1.999999999999ap-1 * PrimFloat.of_uint63 (Uint63.of_Z z))%float
  = Some (4 * z / 5)%Z.
Proof.
  revert z0. induction count as [|count IH]; intros z0 Hc Hz; [lia|].
  cbn [exact_from] in Hc. apply andb_prop in Hc as [H0 Hrest].
  destruct (decide (z = z0)) as [->|Hne].
  - by apply bool_decide_eq_true_1 in H0.
  - apply (IH (z0 + 1)%Z); [done|lia].
Qed.

Lemma exact_up_to_20000 : exact_from (Z.to_nat 20001) 0 = true.
Proof. vm_compute. reflexivity. Qed.

(** The number of training points is exactly four fifths of the number of
    data points, rounded down, for every data set of at most 20000 points:
    the binary64 product [0.8 * n] never falls on the wrong side of an
    integer there. *)
Theorem train_n_exact (n : nat) :
  (Z.of_nat n ≤ 20000)%Z → train_n n = Some (4 * n / 5).
Proof.
  intros Hn. unfold train_n.
  rewrite bool_decide_eq_true_2 by lia.
  rewrite (exact_from_sound (Z.to_nat 20001) 0 _ exact_up_to_20000) by lia.
  cbn [fmap option_fmap option_map]. f_equal.
  rewrite <- (Nat2Z.id (4 * n / 5)). f_equal.
  rewrite Nat2Z.inj_div, Nat2Z.inj_mul. reflexivity.
Qed.

Lemma train_n_exact_witness :
  (Z.of_nat 5 ≤ 20000)%Z ∧ train_n 5 = Some (4 * 5 / 5).
Proof. split; [lia | apply (train_n_exact 5); lia]. Defined.

Section SplitFacts.
Context {scalar : Type}.
Implicit Types (X y : Tensor scalar).

Lemma slice_to_matrix X n w k :
  shape X = [n; w] →
  ∃ t, slice_to k X = Some t ∧ shape t = [k `min` n; w]
     ∧ ∀ i, i < k → row t i = row X i.
Proof.
  intros Hs. unfold slice_to. rewrite Hs. eexists. split; [done|]. split; [done|].
  intros i Hi. unfold row, last_dim. rewrite Hs. cbn -[Nat.mul].
  rewrite Nat.mul_1_r, !take_drop_commute, take_take. do 2 f_equal. nia.
Qed.

Lemma slice_from_matrix X n w k :
  shape X = [n; w] →
  ∃ t, slice_from k X = Some t ∧ shape t = [n - k; w]
     ∧ ∀ i, row t i = row X (k + i).
Proof.
  intros Hs. unfold slice_from. rewrite Hs. eexists. split; [done|]. split; [done|].
  intros i. unfold row, last_dim. rewrite Hs. cbn -[Nat.mul].
  rewrite Nat.mul_1_r, drop_drop. do 2 f_equal. lia.
Qed.

Lemma slice_to_vector y n k :
  shape y = [n] →
  ∃ t, slice_to k y = Some t ∧ shape t = [k `min` n]
     ∧ ∀ i, i < k → data t !! i = data y !! i.
Proof.
  intros Hs. unfold slice_to. rewrite Hs. eexists. split; [done|]. split; [done|].
  intros i Hi. cbn. rewrite Nat.mul_1_r. by apply lookup_take_lt.
Qed.

Lemma slice_from_vector y n k :
  shape y = [n] →
  ∃ t, slice_from k y = Some t ∧ shape t = [n - k]
     ∧ ∀ i, data t !! i = data y !! (k + i).
Proof.
  intros Hs. unfold slice_from. rewrite Hs. eexists. split; [done|]. split; [done|].
  intros i. cbn. rewrite Nat.mul_1_r. apply lookup_drop.
Qed.

(** The split keeps every data point with its target, puts the first
    [train_n] points into the training set and all others, in their order,
    into the test set: no point is in both sets and none is lost. *)
Theorem train_test_split_aligned X y (n w k : nat) :
  shape X = [n; w] → shape y = [n] → train_n n = Some k →
  ∃ s, train_test_split X y = Some s
     ∧ shape (train_x s) = [k `min` n; w] ∧ shape (train_y s) = [k `min` n]
     ∧ shape (test_x s) = [n - k; w] ∧ shape (test_y s) = [n - k]
     ∧ (∀ i, i < k →
          row (train_x s) i = row X i ∧ data (train_y s) !! i = data y !! i)
     ∧ (∀ i, row (test_x s) i = row X (k + i)
             ∧ data (test_y s) !! i = data y !! (k + i)).
Proof.
  intros HX Hy Hk.
  destruct (slice_to_matrix X n w k HX) as (tx & Htx & Hstx & Hrtx).
  destruct (slice_to_vector y n k Hy) as (ty & Hty & Hsty & Hrty).
  destruct (slice_from_matrix X n w k HX) as (ex & Hex & Hsex & Hrex).
  destruct (slice_from_vector y n k Hy) as (ey & Hey & Hsey & Hrey).
  exists (mkSplit tx ty ex ey). split.
  - unfold train_test_split, len. rewrite HX. cbn [head mbind option_bind].
    rewrite Hk. cbn [mbind option_bind].
    rewrite option_guard_True by (cbn; lia).
    by rewrite Htx, Hty, Hex, Hey.
  - cbn [train_x train_y test_x test_y]. repeat split; auto.
Qed.

End SplitFacts.

Lemma train_test_split_aligned_witness :
  ∃ s, train_test_split (mkTensor [5; 2] [0; 1; 2; 3; 4; 5; 6; 7; 8; 9]%Z)
                        (mkTensor [5] [10; 11; 12; 13; 14]%Z) = Some s
     ∧ shape (train_x s) = [4 `min` 5; 2] ∧ shape (train_y s) = [4 `min` 5]
     ∧ shape (test_x s) = [5 - 4; 2] ∧ shape (test_y s) = [5 - 4]
     ∧ (∀ i, i < 4 →
          row (train_x s) i = row (mkTensor [5; 2] [0; 1; 2; 3; 4; 5; 6; 7; 8; 9]%Z) i
          ∧ data (train_y s) !! i = data (mkTensor [5] [10; 11; 12; 13; 14]%Z) !! i)
     ∧ (∀ i, row (test_x s) i
             = row (mkTensor [5; 2] [0; 1; 2; 3; 4; 5; 6; 7; 8; 9]%Z) (4 + i)
             ∧ data (test_y s) !! i
               = data (mkTensor [5] [10; 11; 12; 13; 14]%Z) !! (4 + i)).
Proof.
  apply (train_test_split_aligned
           (mkTensor [5; 2] [0; 1; 2; 3; 4; 5; 6; 7; 8; 9]%Z)
           (mkTensor [5] [10; 11; 12; 13; 14]%Z) 5 2 4);
    [reflexivity | reflexivity | vm_compute; reflexivity].
Defined.

Section Columns.
Context {scalar : Type}.
Implicit Types (t : Tensor scalar).

(** Features and target of the data matrix, [X = data[:, :-m]] and
    [y = data[:, -1]]: every row of the data is its row of features, the
    [m - 1] columns that are left out, and its target.  The target is never
    among the features, and with [m = 1] nothing is left out. *)
Theorem features_and_target (m : nat) t (n c : nat) :
  shape t = [n; c] → well_formed t → 1 ≤ m ≤ c →
  ∃ X y, drop_last_columns m t = Some X ∧ last_column t = Some y
     ∧ shape X = [n; c - m] ∧ shape y = [n]
     ∧ ∀ i, i < n →
         ∃ left_out target, length left_out = m - 1
           ∧ data y !! i = Some target
           ∧ row t i = row X i ++ left_out ++ [target].
Proof.
  intros Hs Hw Hm. destruct c as [|c']; [lia|].
  unfold drop_last_columns, last_column. rewrite Hs.
  do 2 eexists. split; [reflexivity|]. split; [reflexivity|].
  split; [done|]. split; [done|]. intros i Hi.
  assert (Hlen : ∀ k, k < n → length (item t k) = S c').
  { intros k Hk. rewrite (length_item t n [S c'] k Hs Hw Hk).
    unfold inner. rewrite Hs. cbn. lia. }
  assert (HX : row (mkTensor [n; S c' - m]
                      (mjoin ((λ k, take ((S c' - m) * numel []) (item t k)) <$> seq 0 n))) i
               = take (S c' - m) (item t i)).
  { unfold row, last_dim. cbn [shape data List.last].
    rewrite (chunk_of_join _ (S c' - m) n i 0); [|intros k Hk|done].
    - cbn. by rewrite Nat.mul_1_r.
    - cbn [numel foldr]. rewrite length_take, Hlen by lia. lia. }
  assert (Hy : take 1 (drop (i * 1)
                 (mjoin ((λ k, drop (c' * numel []) (item t k)) <$> seq 0 n)))
               = drop c' (item t i)).
  { rewrite (chunk_of_join _ 1 n i 0); [|intros k Hk|done].
    - cbn. by rewrite Nat.mul_1_r.
    - cbn [numel foldr]. rewrite length_drop, Hlen by lia. lia. }
  rewrite HX. cbn [data]. rewrite <- (item_row t n (S c') i Hs).
  destruct (drop c' (item t i)) as [|target [|??]] eqn:Hd;
    try (apply (f_equal length) in Hd; rewrite length_drop, Hlen in Hd by done;
         cbn in Hd; lia).
  exists (take (m - 1) (drop (S c' - m) (item t i))), target.
  split; [|split].
  - rewrite length_take, length_drop, Hlen by done. lia.
  - rewrite Nat.mul_1_r in Hy.
    apply (f_equal (λ l, l !! 0)) in Hy. cbn in Hy. rewrite <- Hy.
    by rewrite lookup_take_lt, lookup_drop, Nat.add_0_r by lia.
  - rewrite <- (take_drop (S c' - m) (item t i)) at 1. f_equal.
    rewrite <- (take_drop (m - 1) (drop (S c' - m) (item t i))) at 1. f_equal.
    rewrite drop_drop. replace (S c' - m + (m - 1)) with c' by lia. done.
Qed.

End Columns.

Lemma features_and_target_witness :
  ∃ X y, drop_last_columns 2 (mkTensor [2; 3] [1; 2; 3; 4; 5; 6]%Z) = Some X
     ∧ last_column (mkTensor [2; 3] [1; 2; 3; 4; 5; 6]%Z) = Some y
     ∧ shape X = [2; 3 - 2] ∧ shape y = [2]
     ∧ ∀ i, i < 2 →
         ∃ left_out target, length left_out = 2 - 1
           ∧ data y !! i = Some target
           ∧ row (mkTensor [2; 3] [1; 2; 3; 4; 5; 6]%Z) i
             = row X i ++ left_out ++ [target].
Proof.
  apply (features_and_target 2 (mkTensor [2; 3] [1; 2; 3; 4; 5; 6]%Z) 2 3);
    [reflexivity | reflexivity | lia].
Defined.

(** The road data: the last column is the target, the one before it is not
    used. *)
Example features_and_target_run :
  drop_last_columns 2 (mkTensor [2; 3] [1; 2; 3; 4; 5; 6]%Z)
  = Some (mkTensor [2; 1] [1; 4]%Z)
  ∧ last_column (mkTensor [2; 3] [1; 2; 3; 4; 5; 6]%Z)
    = Some (mkTensor [2] [3; 6]%Z).
Proof. split; reflexivity. Qed.

(** A matrix without columns has no last column. *)
Example last_column_of_nothing :
  last_column (mkTensor (scalar:=Z) [2; 0] []) = None.
Proof. reflexivity. Qed.

Section Subsets.
Context {scalar RNG : Type}.
Variable randperm : nat → RNG → list nat * RNG.
Implicit Types (X y t : Tensor scalar).

(** Selecting positions that are in range: the result holds, at position
    [j], what the tensor holds at the [j]-th selected position. *)
Lemma index_select_items t n rest (indices : list nat) :
  shape t = n :: rest → well_formed t →
  Forall (λ i, i < n) indices →
  ∃ t', index_select indices t = Some t'
      ∧ shape t' = length indices :: rest
      ∧ ∀ j i, indices !! j = Some i → item t' j = item t i.
Proof.
  intros Hs Hw Hin. unfold index_select. rewrite Hs.
  rewrite bool_decide_eq_true_2 by done.
  eexists. split; [done|]. split; [done|].
  intros j i Hj. unfold item at 1. cbn [data]. unfold inner at 1 2. cbn [shape tail].
  rewrite <- (inner_shape t n rest Hs).
  apply chunk_of_join_list.
  - apply Forall_fmap. eapply Forall_impl; [exact Hin|].
    intros i' Hi'. by apply (length_item t n rest).
  - by rewrite list_lookup_fmap, Hj.
Qed.

Lemma take_permutation_prefix (perm : list nat) n m :
  perm ≡ₚ seq 0 n →
  NoDup (take m perm) ∧ length (take m perm) = m `min` n
  ∧ Forall (λ i, i < n) (take m perm).
Proof.
  intros Hp. split; [|split].
  - apply (sublist_NoDup (take m perm) perm); [|apply sublist_take].
    rewrite Hp. apply NoDup_seq.
  - rewrite length_take, Hp, length_seq. lia.
  - apply Forall_take. rewrite Hp. apply Forall_seq. intros; lia.
Qed.

(** The random subset keeps data points with their targets and holds no
    data point twice: it has [min m n] points, taken at pairwise different
    positions of the data. *)
Theorem subsample_aligned (m : nat) X y (g g' : RNG) (perm : list nat)
    (n : nat) (restX resty : list nat) :
  shape X = n :: restX → shape y = n :: resty →
  well_formed X → well_formed y →
  randperm n g = (perm, g') → perm ≡ₚ seq 0 n →
  ∃ X' y', subsample randperm m X y g = Some (X', y', g')
     ∧ shape X' = m `min` n :: restX ∧ shape y' = m `min` n :: resty
     ∧ NoDup (take m perm)
     ∧ ∀ j i, take m perm !! j = Some i →
         i < n ∧ item X' j = item X i ∧ item y' j = item y i.
Proof.
  intros HX Hy HwX Hwy Hr Hp.
  destruct (take_permutation_prefix perm n m Hp) as (Hnd & Hlen & Hin).
  destruct (index_select_items X n restX _ HX HwX Hin) as (X' & HX' & HsX' & HiX').
  destruct (index_select_items y n resty _ Hy Hwy Hin) as (y' & Hy' & Hsy' & Hiy').
  exists X', y'. split.
  - unfold subsample, len. rewrite HX. cbn [head mbind option_bind].
    rewrite Hr. by rewrite HX', Hy'.
  - rewrite HsX', Hsy', Hlen. repeat split; auto.
    eapply Forall_lookup_1 in Hin; eauto.
Qed.

(** The inducing points are [min m n] training points taken at pairwise
    different positions of the training set. *)
Theorem inducing_points_distinct (m : nat) X (g g' : RNG) (perm : list nat)
    (n : nat) (rest : list nat) :
  shape X = n :: rest → well_formed X →
  randperm n g = (perm, g') → perm ≡ₚ seq 0 n →
  ∃ ip, inducing_points randperm m X g = Some (ip, g')
     ∧ shape ip = m `min` n :: rest
     ∧ NoDup (take m perm)
     ∧ ∀ j, j < m `min` n →
         ∃ i, take m perm !! j = Some i ∧ i < n ∧ item ip j = item X i.
Proof.
  intros HX HwX Hr Hp.
  destruct (take_permutation_prefix perm n m Hp) as (Hnd & Hlen & Hin).
  destruct (index_select_items X n rest _ HX HwX Hin) as (ip & Hip & Hsip & Hiip).
  exists ip. split.
  - unfold inducing_points, len. rewrite HX. cbn [head mbind option_bind].
    rewrite Hr. by rewrite Hip.
  - rewrite Hsip, Hlen. repeat split; auto.
    intros j Hj. destruct (lookup_lt_is_Some_2 (take m perm) j) as [i Hi]; [lia|].
    exists i. repeat split; auto.
    eapply Forall_lookup_1 in Hin; eauto.
Qed.

End Subsets.

Lemma subsample_aligned_witness :
  ∃ X' y', subsample (λ n (g : nat), (reverse (seq 0 n), S g)) 2
             (mkTensor [3; 2] [0; 1; 2; 3; 4; 5]%Z) (mkTensor [3] [10; 11; 12]%Z) 0
           = Some (X', y', 1)
     ∧ shape X' = 2 `min` 3 :: [2] ∧ shape y' = 2 `min` 3 :: []
     ∧ NoDup (take 2 [2; 1; 0])
     ∧ ∀ j i, take 2 [2; 1; 0] !! j = Some i →
         i < 3 ∧ item X' j = item (mkTensor [3; 2] [0; 1; 2; 3; 4; 5]%Z) i
         ∧ item y' j = item (mkTensor [3] [10; 11; 12]%Z) i.
Proof.
  apply (subsample_aligned (λ n (g : nat), (reverse (seq 0 n), S g)) 2
           (mkTensor [3; 2] [0; 1; 2; 3; 4; 5]%Z) (mkTensor [3] [10; 11; 12]%Z)
           0 1 [2; 1; 0] 3 [2] []);
    [reflexivity | reflexivity | reflexivity | reflexivity | reflexivity |].
  apply (reverse_Permutation [0; 1; 2]).
Defined.

Lemma inducing_points_distinct_witness :
  ∃ ip, inducing_points (λ n (g : nat), (reverse (seq 0 n), S g)) 2
          (mkTensor [3; 2] [0; 1; 2; 3; 4; 5]%Z) 0 = Some (ip, 1)
     ∧ shape ip = 2 `min` 3 :: [2]
     ∧ NoDup (take 2 [2; 1; 0])
     ∧ ∀ j, j < 2 `min` 3 →
         ∃ i, take 2 [2; 1; 0] !! j = Some i ∧ i < 3
              ∧ item ip j = item (mkTensor [3; 2] [0; 1; 2; 3; 4; 5]%Z) i.
Proof.
  apply (inducing_points_distinct (λ n (g : nat), (reverse (seq 0 n), S g)) 2
           (mkTensor [3; 2] [0; 1; 2; 3; 4; 5]%Z) 0 1 [2; 1; 0] 3 [2]);
    [reflexivity | reflexivity | reflexivity |].
  apply (reverse_Permutation [0; 1; 2]).
Defined.

(** Asking for more points than there are yields all of them. *)
Example inducing_points_few :
  inducing_points (λ n (g : nat), (reverse (seq 0 n), S g)) 1000
    (mkTensor [3; 2] [0; 1; 2; 3; 4; 5]%Z) 0
  = Some (mkTensor [3; 2] [4; 5; 2; 3; 0; 1]%Z, 1).
Proof. vm_compute. reflexivity. Qed.

(** Five data points: four for training, the last one for testing. *)
Example train_test_split_run :
  train_test_split (mkTensor [5; 2] [0; 1; 2; 3; 4; 5; 6; 7; 8; 9]%Z)
                   (mkTensor [5] [10; 11; 12; 13; 14]%Z)
  = Some (mkSplit (mkTensor [4; 2] [0; 1; 2; 3; 4; 5; 6; 7]%Z)
                  (mkTensor [4] [10; 11; 12; 13]%Z)
                  (mkTensor [1; 2] [8; 9]%Z)
                  (mkTensor [1] [14]%Z)).
Proof. vm_compute. reflexivity. Qed.

(** A single data point goes to the test set and leaves the training set
    empty. *)
Example train_test_split_single :
  train_test_split (mkTensor [1; 2] [8; 9]%Z) (mkTensor [1] [14]%Z)
  = Some (mkSplit (mkTensor [0; 2] []) (mkTensor [0] [])
                  (mkTensor [1; 2] [8; 9]%Z) (mkTensor [1] [14]%Z)).
Proof. vm_compute. reflexivity. Qed.

End DataPreparationFacts.

(** ** Prediction loops *)

Module EvaluationFacts.
Import DeepQEP Torch Evaluation DeepQEPFacts TorchFacts.

Section LoaderFacts.
Context {A : Type}.
Implicit Types (dataset : list A).

(** The batches of a loader, put end to end, are the data set. *)
Lemma batches_join fuel b dataset :
  b ≠ 0 → length dataset ≤ fuel → mjoin (batches fuel b dataset) = dataset.
Proof.
  intros Hb. revert dataset.
  induction fuel as [|fuel IH]; intros dataset Hlen.
  - by destruct dataset; [|cbn in Hlen; lia].
  - destruct dataset as [|x dataset]; [done|].
    cbn [batches mjoin list_join].
    change (list_join ?l) with (mjoin l). rewrite IH.
    + apply take_drop.
    + rewrite length_drop. cbn [length] in *. lia.
Qed.

Lemma batches_nonempty fuel b dataset :
  b ≠ 0 → Forall (λ batch, batch ≠ [] ∧ length batch ≤ b) (batches fuel b dataset).
Proof.
  intros Hb. revert dataset.
  induction fuel as [|fuel IH]; intros dataset; [constructor|].
  destruct dataset as [|x dataset]; [constructor|].
  cbn [batches]. constructor; [|apply IH].
  split; [destruct b; [done|discriminate]|]. rewrite length_take. lia.
Qed.

End LoaderFacts.

Section MeansFacts.
Context {scalar batch State : Type}.
Variable predictive_mean : batch → State → Tensor scalar * State.
Variable zero : scalar.
Implicit Types (t : Tensor scalar) (loader : list batch) (st : State).

Lemma cat_first_append t t' k :
  shape t = [S k] → vector t' →
  cat_first [t; t'] = Some (mkTensor [S k + length (data t')] (data t ++ data t')).
Proof.
  intros Hs Hv. unfold cat_first.
  assert (Ht : ¬ legacy_empty t) by (unfold legacy_empty; by rewrite Hs).
  rewrite filter_cons_True by done.
  destruct (decide (legacy_empty t')) as [He|He].
  - rewrite filter_cons_False by (by intros ?). rewrite filter_nil.
    unfold legacy_empty in He. unfold vector in Hv. rewrite He in Hv.
    injection Hv as Hv. destruct (data t') as [|??]; [|done].
    rewrite bool_decide_eq_true_2.
    + cbn. unfold first_dim. rewrite Hs. cbn. by rewrite !app_nil_r, !Nat.add_0_r.
    + repeat constructor. by rewrite Hs.
  - rewrite filter_cons_True by done. rewrite filter_nil.
    rewrite bool_decide_eq_true_2.
    + cbn. unfold first_dim. rewrite Hs, Hv. cbn.
      by rewrite !app_nil_r, !Nat.add_0_r.
    + repeat constructor; try by rewrite Hs.
      * by rewrite Hv.
      * by rewrite Hv, Hs.
Qed.

Lemma collect_fold loader st k (acc : list scalar) :
  Forall vector (predictions predictive_mean loader st).1 →
  length acc = k →
  foldl (collect_step predictive_mean)
        (Some (mkTensor [S k] (zero :: acc)), st) loader
  = (Some (mkTensor
             [S (k + length (mjoin (data <$> (predictions predictive_mean loader st).1)))]
             (zero :: acc ++ mjoin (data <$> (predictions predictive_mean loader st).1))),
     (predictions predictive_mean loader st).2).
Proof.
  revert st k acc.
  induction loader as [|b loader IH]; intros st k acc Hall Hk.
  - cbn. by rewrite app_nil_r, Nat.add_0_r.
  - cbn [foldl collect_step predictions] in *.
    destruct (predictive_mean b st) as [m st1].
    destruct (predictions predictive_mean loader st1) as [ms st2] eqn:Hp.
    cbn [fst snd] in *. apply Forall_cons in Hall as [Hm Hms].
    rewrite (cat_first_append _ _ k) by done.
    cbn [data app Nat.add].
    rewrite (IH st1 (k + length (data m)) (acc ++ data m));
      [|by rewrite Hp|rewrite length_app; lia].
    rewrite Hp. cbn [fst snd fmap list_fmap mjoin list_join].
    change (list_join ?l) with (mjoin l).
    rewrite length_app, <- !app_assoc, Nat.add_assoc. reflexivity.
Qed.

(** The loop returns the predictive means of the batches one after the
    other, without the entry it started from; for a loader without batches
    it returns the empty vector. *)
Theorem collect_means_concatenates loader st :
  Forall vector (predictions predictive_mean loader st).1 →
  collect_means predictive_mean zero loader st
  = Some (mkTensor
            [length (mjoin (data <$> (predictions predictive_mean loader st).1))]
            (mjoin (data <$> (predictions predictive_mean loader st).1)),
          (predictions predictive_mean loader st).2).
Proof.
  intros Hall. unfold collect_means.
  rewrite (collect_fold loader st 0 []) by done.
  cbn. by rewrite Nat.sub_0_r.
Qed.

End MeansFacts.

Section PerPoint.
Context {scalar A State : Type}.
Variable zero : scalar.

Lemma predictions_lengths (pm : list A → State → Tensor scalar * State)
    (loader : list (list A)) (st : State) :
  (∀ x_batch st, vector (pm x_batch st).1
                 ∧ length (data (pm x_batch st).1) = length x_batch) →
  Forall vector (predictions pm loader st).1
  ∧ length (mjoin (data <$> (predictions pm loader st).1)) = length (mjoin loader).
Proof.
  intros Hpm. revert st. induction loader as [|b loader IH]; intros st.
  - by split; [constructor|].
  - cbn [predictions]. destruct (Hpm b st) as [Hv Hl].
    destruct (pm b st) as [m st1]. destruct (IH st1) as [Hvs Hls].
    destruct (predictions pm loader st1) as [ms st2]. cbn [fst snd] in *.
    split; [by constructor|].
    change (length (data m ++ mjoin (data <$> ms))
            = length (b ++ mjoin loader)).
    rewrite !length_app. lia.
Qed.

(** With the loader of the notebook, [DataLoader(test_dataset,
    batch_size=b, shuffle=False)], and a model that returns one mean for
    each point of a batch, the collected means have one entry for each test
    point, batch after batch in the order of the test set. *)
Theorem collect_means_per_point (pm : list A → State → Tensor scalar * State)
    (dataset : list A) (b : nat) (st : State) :
  b ≠ 0 →
  (∀ x_batch st, vector (pm x_batch st).1
                 ∧ length (data (pm x_batch st).1) = length x_batch) →
  ∃ loader t st',
    DataLoader dataset b = Some loader
    ∧ mjoin loader = dataset
    ∧ collect_means pm zero loader st = Some (t, st')
    ∧ shape t = [length dataset]
    ∧ data t = mjoin (data <$> (predictions pm loader st).1).
Proof.
  intros Hb Hpm.
  destruct (predictions_lengths pm (batches (length dataset) b dataset) st Hpm)
    as [Hv Hl].
  eexists _, _, _. split; [|split; [|split; [|split]]].
  - unfold DataLoader. by rewrite bool_decide_eq_false_2.
  - by apply batches_join.
  - unfold collect_means.
    rewrite (collect_fold pm zero _ st 0 []) by done.
    cbn. rewrite Nat.sub_0_r. reflexivity.
  - cbn [shape]. f_equal. rewrite Hl. by rewrite batches_join.
  - done.
Qed.

End PerPoint.

Lemma collect_means_concatenates_witness :
  Forall vector
    (predictions (λ (b : list Z) (st : nat), (mkTensor [length b] b, S st))
                 [[1; 2]; []; [3]]%Z 0).1
  ∧ collect_means (λ (b : list Z) (st : nat), (mkTensor [length b] b, S st)) 0%Z
                  [[1; 2]; []; [3]]%Z 0
    = Some (mkTensor
              [length (mjoin (data <$>
                 (predictions (λ (b : list Z) (st : nat), (mkTensor [length b] b, S st))
                              [[1; 2]; []; [3]]%Z 0).1))]
              (mjoin (data <$>
                 (predictions (λ (b : list Z) (st : nat), (mkTensor [length b] b, S st))
                              [[1; 2]; []; [3]]%Z 0).1)),
            (predictions (λ (b : list Z) (st : nat), (mkTensor [length b] b, S st))
                         [[1; 2]; []; [3]]%Z 0).2).
Proof.
  assert (H : Forall vector
    (predictions (λ (b : list Z) (st : nat), (mkTensor [length b] b, S st))
                 [[1; 2]; []; [3]]%Z 0).1) by (repeat constructor).
  split; [exact H|].
  exact (collect_means_concatenates
           (λ (b : list Z) (st : nat), (mkTensor [length b] b, S st)) 0%Z
           [[1; 2]; []; [3]]%Z 0 H).
Defined.

Lemma collect_means_per_point_witness :
  ∃ loader t st',
    DataLoader [1; 2; 3; 4; 5]%Z 2 = Some loader
    ∧ mjoin loader = [1; 2; 3; 4; 5]%Z
    ∧ collect_means (λ (b : list Z) (st : nat), (mkTensor [length b] b, S st)) 0%Z
                    loader 0 = Some (t, st')
    ∧ shape t = [length [1; 2; 3; 4; 5]%Z]
    ∧ data t = mjoin (data <$>
        (predictions (λ (b : list Z) (st : nat), (mkTensor [length b] b, S st))
                     loader 0).1).
Proof.
  apply (collect_means_per_point 0%Z
           (λ (b : list Z) (st : nat), (mkTensor [length b] b, S st))
           [1; 2; 3; 4; 5]%Z 2 0); [lia|].
  intros x_batch st. split; reflexivity.
Defined.

(** Five test points in batches of two; the model is called three times. *)
Example collect_means_run :
  (loader ← DataLoader [1; 2; 3; 4; 5]%Z 2;
   collect_means (λ (b : list Z) (st : nat),
                    (mkTensor [length b] (Z.mul 10 <$> b), S st)) 0%Z loader 0)
  = Some (mkTensor [5] [10; 20; 30; 40; 50]%Z, 3).
Proof. vm_compute. reflexivity. Qed.

(** A loader cannot be built with batches of size zero. *)
Example loader_batch_size_zero : DataLoader [1; 2; 3]%Z 0 = None.
Proof. reflexivity. Qed.

(** A model that returns a matrix where a vector of means is expected makes
    [torch.cat] fail. *)
Example collect_means_wrong_rank :
  collect_means (λ (b : list Z) (st : nat), (mkTensor [1; length b] b, S st)) 0%Z
                [[1; 2]]%Z 0
  = None.
Proof. vm_compute. reflexivity. Qed.

Section PredictFacts.
Context {scalar batch Dist RNG : Type}.
Variable forward : batch → RNG → Dist * RNG.
Variable likelihood : Dist → RNG → Dist * RNG.
Variables mean variance : Dist → Tensor scalar.
Variable log_marginal : batch → Dist → RNG → Tensor scalar * RNG.
Variable ns : nat.
Hypothesis mean_shape : ∀ d, sample_matrix ns (mean d).
Hypothesis variance_shape : ∀ d, sample_matrix ns (variance d).
Hypothesis log_marginal_shape : ∀ b d g, sample_matrix ns (log_marginal b d g).1.

(** One turn of the loop of [predict] appends one tensor to each of its
    three lists. *)
Lemma predict_step_grows (c0 : Collected scalar) (g0 : RNG) (b : batch) :
  Forall (sample_matrix ns) (mus c0) →
  Forall (sample_matrix ns) (variances c0) →
  Forall (sample_matrix ns) (lls c0) →
  ∃ c g, predict_step forward likelihood mean variance log_marginal (c0, g0) b = (c, g)
    ∧ Forall (sample_matrix ns) (mus c) ∧ length (mus c) = S (length (mus c0))
    ∧ Forall (sample_matrix ns) (variances c)
    ∧ length (variances c) = S (length (variances c0))
    ∧ Forall (sample_matrix ns) (lls c)
    ∧ length (lls c) = S (length (lls c0)).
Proof using mean_shape variance_shape log_marginal_shape.
  intros Hm Hv Hl. unfold predict_step.
  destruct (forward b g0) as [out g1]. destruct (likelihood out g1) as [preds g2].
  destruct (forward b g2) as [out' g3].
  pose proof (log_marginal_shape b out' g3) as Hll.
  destruct (log_marginal b out' g3) as [ll g4]. cbn [fst] in Hll.
  eexists _, _. split; [reflexivity|]. cbn [mus variances lls].
  rewrite !length_app. cbn [length].
  repeat split; try lia; apply Forall_app; (split; [done|]);
    apply Forall_singleton; auto.
Qed.

Lemma predict_fold loader (c0 : Collected scalar) (g0 : RNG) :
  Forall (sample_matrix ns) (mus c0) →
  Forall (sample_matrix ns) (variances c0) →
  Forall (sample_matrix ns) (lls c0) →
  ∃ c g, foldl (predict_step forward likelihood mean variance log_marginal)
            (c0, g0) loader = (c, g)
    ∧ Forall (sample_matrix ns) (mus c) ∧ length (mus c) = length (mus c0) + length loader
    ∧ Forall (sample_matrix ns) (variances c)
    ∧ length (variances c) = length (variances c0) + length loader
    ∧ Forall (sample_matrix ns) (lls c)
    ∧ length (lls c) = length (lls c0) + length loader.
Proof using mean_shape variance_shape log_marginal_shape.
  revert c0 g0. induction loader as [|b loader IH]; intros c0 g0 Hm Hv Hl.
  - exists c0, g0. cbn. rewrite !Nat.add_0_r. auto 10.
  - cbn [foldl].
    destruct (predict_step_grows c0 g0 b Hm Hv Hl)
      as (c1 & g1 & -> & Hm1 & Hlm1 & Hv1 & Hlv1 & Hl1 & Hll1).
    destruct (IH c1 g1 Hm1 Hv1 Hl1)
      as (c & g & Hf & Hm' & Hlm & Hv' & Hlv & Hl' & Hll).
    exists c, g. cbn [length]. repeat split; auto; lia.
Qed.

(** Concatenating sample matrices along their last dimension. *)
Lemma cat_sample_matrices (ts : list (Tensor scalar)) :
  ts ≠ [] → Forall (sample_matrix ns) ts →
  ∃ t, cat_last ts = Some t
     ∧ shape t = [ns; sum_list (last_dim <$> ts)]
     ∧ ∀ s, s < ns → row t s = cat_row ts s.
Proof.
  intros Hne Hall. destruct ts as [|t0 ts]; [done|].
  destruct (cat_last_rows ts t0 [ns]) as (t & Ht & Hs & _ & Hr); [done..|].
  exists t. repeat split; auto.
  intros s Hs'. apply Hr. cbn. lia.
Qed.


End PredictFacts.


(** Two batches of one point each, two samples: every pass through the
    model advances the generator, twice for each batch. *)
Example predict_run :
  predict (λ (b : Z) (g : nat), (b, S g)) (λ d (g : nat), (d, g))
          (λ d, mkTensor [2; 1] [d; d]) (λ d, mkTensor [2; 1] [(d + 10)%Z; (d + 10)%Z])
          (λ _ d (g : nat), (mkTensor [2; 1] [(- d)%Z; (- d)%Z], g)) [1; 2]%Z 0
  = Some (mkTensor [2; 2] [1; 2; 1; 2]%Z,
          mkTensor [2; 2] [11; 12; 11; 12]%Z,
          mkTensor [2; 2] [-1; -2; -1; -2]%Z, 4).
Proof. vm_compute. reflexivity. Qed.

End EvaluationFacts.

(** ** When the skip connection fails *)

Module SkipConnectionFacts.
Import DeepQEP DeepQEPFacts.

Section Failure.
Context {scalar Dist RNG : Type}.
Variable rsample : Dist → RNG → Tensor scalar * RNG.
Implicit Types (t xs inp : Tensor scalar).

Lemma Forall_filter_iff {A} (P Q : A → Prop) `{!∀ x, Decision (P x)} (l : list A) :
  Forall Q (filter P l) ↔ Forall (λ x, P x → Q x) l.
Proof.
  induction l as [|x l IH]; [by split; constructor|].
  destruct (decide (P x)) as [HP|HP].
  - rewrite filter_cons_True by done. rewrite !Forall_cons, IH. tauto.
  - rewrite filter_cons_False by done. rewrite Forall_cons, IH. tauto.
Qed.

(** The concatenation of a tensor that is not skipped with the broadcast
    inputs is defined exactly when the tensor has a dimension and every
    input that is not skipped agrees with it on all dimensions but the
    last. *)
Lemma cat_last_defined xs (ts : list (Tensor scalar)) :
  ¬ legacy_empty xs →
  is_Some (cat_last (xs :: ts))
  ↔ shape xs ≠ []
    ∧ Forall (λ t, legacy_empty t ∨ (shape t ≠ [] ∧ lead t = lead xs)) ts.
Proof.
  intros Hxs. unfold cat_last. rewrite filter_cons_True by done.
  case_bool_decide as Hc.
  - split; [intros _|by eauto].
    apply Forall_cons in Hc as [[Hne _] Hrest].
    split; [done|]. apply Forall_filter_iff in Hrest.
    eapply Forall_impl; [exact Hrest|]. intros t Ht.
    destruct (decide (legacy_empty t)); [by left|right; by apply Ht].
  - split; [by intros [? ?]|]. intros [Hne Hall]. exfalso. apply Hc.
    apply Forall_cons. split; [done|]. apply Forall_filter_iff.
    eapply Forall_impl; [exact Hall|]. intros t [Ht|Ht] Hn; [done|exact Ht].
Qed.

(** A call with additional inputs succeeds exactly when the samples have a
    dimension and every additional input, with the sample dimension put in
    front of its shape, agrees with the samples on all dimensions but the
    last; otherwise [torch.cat] raises.  (An input broadcast to the shape
    [[0]] is skipped by [torch.cat].) *)
Theorem call_succeeds_iff (num_likelihood_samples : nat)
    (x : LayerInput scalar Dist) (other_inputs : list (Tensor scalar))
    (g g' : RNG) xs :
  other_inputs ≠ [] →
  sampled_output rsample x g = Some (xs, g') →
  shape xs ≠ [0] →
  is_Some (__call__ rsample num_likelihood_samples x other_inputs g)
  ↔ shape xs ≠ []
    ∧ Forall (λ inp,
        num_likelihood_samples :: shape inp = [0]
        ∨ removelast (num_likelihood_samples :: shape inp) = removelast (shape xs))
        other_inputs.
Proof.
  intros Hne Hx Hxs.
  assert (Hcall : __call__ rsample num_likelihood_samples x other_inputs g
            = t ← cat_last (xs :: (expanded num_likelihood_samples <$> other_inputs));
              Some (mkSuperCall (InTensor (Dist:=Dist) t) true, g')).
  { unfold __call__. rewrite bool_decide_eq_true_2 by done.
    destruct x as [t0|d|d]; cbn in Hx; [| |done].
    - injection Hx as -> ->. by rewrite mapM_expand.
    - injection Hx as Hx. rewrite Hx. by rewrite mapM_expand. }
  rewrite Hcall.
  transitivity (is_Some (cat_last (xs :: (expanded num_likelihood_samples <$> other_inputs)))).
  { destruct (cat_last _); cbn; split; intros [? ?]; eauto; done. }
  rewrite cat_last_defined by done.
  rewrite Forall_fmap. apply and_iff_compat_l, Forall_iff. intros inp.
  unfold compose, legacy_empty, lead. cbn [shape expanded].
  split; (intros [He|He]; [by left|right]); [apply He|by split].
Qed.

End Failure.

Lemma call_succeeds_iff_witness :
  is_Some (__call__ (λ (_ : unit) (g : nat), (mkTensor [0] [], S g)) 2
             (InTensor (mkTensor [2; 2; 1] [10; 11; 12; 13]%Z))
             [mkTensor [3; 1] [1; 2; 3]%Z] 0)
  ↔ shape (mkTensor [2; 2; 1] [10; 11; 12; 13]%Z) ≠ []
    ∧ Forall (λ inp,
        2 :: shape inp = [0]
        ∨ removelast (2 :: shape inp)
          = removelast (shape (mkTensor [2; 2; 1] [10; 11; 12; 13]%Z)))
        [mkTensor [3; 1] [1; 2; 3]%Z].
Proof.
  apply (call_succeeds_iff (λ (_ : unit) (g : nat), (mkTensor [0] [], S g)) 2
           (InTensor (mkTensor [2; 2; 1] [10; 11; 12; 13]%Z))
           [mkTensor [3; 1] [1; 2; 3]%Z] 0 0
           (mkTensor [2; 2; 1] [10; 11; 12; 13]%Z));
    [discriminate | reflexivity | discriminate].
Defined.

End SkipConnectionFacts.

(** ** Batches of univariate inputs *)

Module BatchingFacts.
Import DeepQEP Torch DeepQEPFacts TorchFacts.

Section Transpose.
Context {scalar : Type}.
Implicit Types (X : Tensor scalar) (l : list scalar).

Lemma take_1_drop {A} (c : list A) i : take 1 (drop i c) = option_list (c !! i).
Proof.
  revert i. induction c as [|x c IH]; intros [|i]; cbn; done.
Qed.

Lemma omap_total {A B} (f : A → option B) (la : list A) :
  Forall (λ a, is_Some (f a)) la →
  length (omap f la) = length la ∧ ∀ i, omap f la !! i = la !! i ≫= f.
Proof.
  induction 1 as [|a la [b Hb] _ [IHl IHi]]; [done|].
  cbn [omap list_omap]. rewrite Hb. cbn [length]. split; [by rewrite IHl|].
  intros [|i]; cbn; [done|]. apply IHi.
Qed.

(** One column of a matrix, read off its row-major entries. *)
Lemma column_of_matrix l n d j :
  length l = n * d → j < d →
  length (omap (λ i, l !! (i * d + j)) (seq 0 n)) = n
  ∧ ∀ i, i < n →
      omap (λ i, l !! (i * d + j)) (seq 0 n) !! i = l !! (i * d + j).
Proof.
  intros Hl Hj.
  destruct (omap_total (λ i, l !! (i * d + j)) (seq 0 n)) as [Hlen Hlook].
  { apply Forall_seq. intros i Hi. apply lookup_lt_is_Some_2. nia. }
  rewrite length_seq in Hlen. split; [done|].
  intros i Hi. rewrite Hlook, lookup_seq_lt by done. done.
Qed.

(** [X.mT.unsqueeze(-1)] turns an [n x d] matrix of [n] points into [d]
    batches of shape [n x 1]: batch [j] holds, for every point, its [j]-th
    coordinate and nothing else. *)
Theorem batched_dimensions X (n d : nat) :
  shape X = [n; d] → well_formed X →
  ∃ T, mT X = Some T
     ∧ shape (unsqueeze_last T) = [d; n; 1]
     ∧ well_formed (unsqueeze_last T)
     ∧ ∀ j i, j < d → i < n →
         ∃ x, data X !! (i * d + j) = Some x
            ∧ row (unsqueeze_last T) (j * n + i) = [x].
Proof.
  intros Hs Hw.
  assert (Hlen : length (data X) = n * d).
  { rewrite (well_formed_length X n [d] Hs Hw). cbn. lia. }
  assert (Hcols : ∀ k, 0 ≤ k < 0 + d →
            length (omap (λ i, data X !! (i * d + k)) (seq 0 n)) = n).
  { intros k Hk. apply (column_of_matrix (data X) n d k); [done|lia]. }
  eexists. split.
  { unfold mT. rewrite Hs. cbn [reverse rev_append numel foldr seq fmap list_fmap].
    cbn [mjoin list_join app]. rewrite Nat.mul_0_l, drop_0, app_nil_r.
    rewrite take_ge by lia. reflexivity. }
  split; [done|]. split.
  { unfold well_formed, unsqueeze_last, transpose_block. cbn [data shape app].
    rewrite (length_join_chunks _ n d 0 Hcols). cbn. lia. }
  intros j i Hj Hi.
  destruct (lookup_lt_is_Some_2 (data X) (i * d + j)) as [x Hx]; [nia|].
  exists x. split; [done|].
  unfold row, last_dim, unsqueeze_last, transpose_block. cbn [data shape app List.last].
  rewrite Nat.mul_1_r, take_1_drop.
  pose proof (chunk_of_join (λ k, omap (λ i, data X !! (i * d + k)) (seq 0 n))
                n d j 0 Hcols Hj) as Hchunk.
  apply (f_equal (λ c, c !! i)) in Hchunk. cbn beta in Hchunk.
  rewrite lookup_take_lt, lookup_drop in Hchunk by done.
  rewrite Hchunk. cbn [Nat.add].
  destruct (column_of_matrix (data X) n d j Hlen Hj) as [_ Hcol].
  by rewrite Hcol, Hx.
Qed.

End Transpose.

Lemma batched_dimensions_witness :
  ∃ T, mT (mkTensor [2; 3] [1; 2; 3; 4; 5; 6]%Z) = Some T
     ∧ shape (unsqueeze_last T) = [3; 2; 1]
     ∧ well_formed (unsqueeze_last T)
     ∧ ∀ j i, j < 3 → i < 2 →
         ∃ x, data (mkTensor [2; 3] [1; 2; 3; 4; 5; 6]%Z) !! (i * 3 + j) = Some x
            ∧ row (unsqueeze_last T) (j * 2 + i) = [x].
Proof.
  apply (batched_dimensions (mkTensor [2; 3] [1; 2; 3; 4; 5; 6]%Z) 2 3);
    reflexivity.
Defined.

(** Two points with three coordinates. *)
Example batched_dimensions_run :
  unsqueeze_last <$> mT (mkTensor [2; 3] [1; 2; 3; 4; 5; 6]%Z)
  = Some (mkTensor [3; 2; 1] [1; 4; 2; 5; 3; 6]%Z).
Proof. reflexivity. Qed.

(** A vector has no two last dimensions to exchange. *)
Example mT_of_vector : mT (mkTensor [3] [1; 2; 3]%Z) = None.
Proof. reflexivity. Qed.

End BatchingFacts.
